(** * core-js-101, objects tasks: Rectangle, JSON helpers, CSS selector builder

    A shallow embedding of [src/06-objects-tasks.js].  JavaScript objects are
    records held in a store of references (a [gmap] from locations to object
    records); an object literal allocates a fresh location, a thrown
    exception is the [Throw] result. *)

From stdpp Require Import gmap strings list fin_maps pretty.
From Stdlib Require Import ZArith Ascii String.

Local Open Scope string_scope.

(** ** Completion records: a call returns a value or throws. *)

Inductive completion (E A : Type) : Type :=
| Return (a : A)
| Throw (e : E).
Arguments Return {E A} a.
Arguments Throw {E A} e.

Global Instance completion_ret {E} : MRet (completion E) := fun A a => Return a.

Global Instance completion_bind {E} : MBind (completion E) := fun A B k c =>
  match c with
  | Return a => k a
  | Throw e => Throw e
  end.

Global Instance completion_fmap {E} : FMap (completion E) := fun A B f c =>
  match c with
  | Return a => Return (f a)
  | Throw e => Throw e
  end.

(** The double-quote character, for texts that contain it. *)
Definition dquote : string := String (Ascii.ascii_of_nat 34) EmptyString.

(** The value of a call that returned. *)
Definition returned {E A} (r : completion E A) : option A :=
  match r with
  | Return a => Some a
  | Throw _ => None
  end.

(** Locations of the object store. *)
Abbreviation loc := positive.

(** ** The CSS selector builder ([cssSelectorBuilder], lines 119-186) *)

Module Builder.

(** [Error(message)]: the two error objects are created once, as fields of
    the facade, and copied by reference into every derived builder. *)
Record Error : Type := mkError { message : string }.

(** The data fields of a builder object.  The methods are the same closures
    in every builder (the spread copies them), so they are the functions
    below, taking the receiver [this] as first argument. *)
Record builder : Type := mkBuilder {
  total : string;
  prev : string;
  elOc : bool;
  idOc : bool;
  pElOc : bool;
  erAlrOc : Error;
  erWOrd : Error
}.

Definition cssSelectorBuilder : builder := {|
  total := "";
  prev := "";
  elOc := false;
  idOc := false;
  pElOc := false;
  erAlrOc := mkError "Element, id and pseudo-element should not occur more then one time inside the selector";
  erWOrd := mkError "Selector parts should be arranged in the following order: element, id, class, attribute, pseudo-class, pseudo-element"
|}.

(** The two error kinds of the specification are the facade's two objects. *)
Definition DuplicateFragment : Error := erAlrOc cssSelectorBuilder.
Definition OutOfOrder : Error := erWOrd cssSelectorBuilder.

Definition element (this : builder) (value : string) : completion Error builder :=
  if elOc this then Throw (erAlrOc this)
  else if negb (prev this =? "") then Throw (erWOrd this)
  else Return {| total := total this +:+ value; prev := "elem"; elOc := true;
                 idOc := idOc this; pElOc := pElOc this;
                 erAlrOc := erAlrOc this; erWOrd := erWOrd this |}.

Definition id (this : builder) (value : string) : completion Error builder :=
  if idOc this then Throw (erAlrOc this)
  else if (prev this =? "class") || (prev this =? "pseudoElem") then Throw (erWOrd this)
  else Return {| total := total this +:+ "#" +:+ value; prev := "id"; elOc := elOc this;
                 idOc := true; pElOc := pElOc this;
                 erAlrOc := erAlrOc this; erWOrd := erWOrd this |}.

Definition class (this : builder) (value : string) : completion Error builder :=
  if prev this =? "attr" then Throw (erWOrd this)
  else Return {| total := total this +:+ "." +:+ value; prev := "class"; elOc := elOc this;
                 idOc := idOc this; pElOc := pElOc this;
                 erAlrOc := erAlrOc this; erWOrd := erWOrd this |}.

Definition attr (this : builder) (value : string) : completion Error builder :=
  if prev this =? "pseudoClass" then Throw (erWOrd this)
  else Return {| total := total this +:+ "[" +:+ value +:+ "]"; prev := "attr";
                 elOc := elOc this; idOc := idOc this; pElOc := pElOc this;
                 erAlrOc := erAlrOc this; erWOrd := erWOrd this |}.

Definition pseudoClass (this : builder) (value : string) : completion Error builder :=
  if prev this =? "pseudoElem" then Throw (erWOrd this)
  else Return {| total := total this +:+ ":" +:+ value; prev := "pseudoClass";
                 elOc := elOc this; idOc := idOc this; pElOc := pElOc this;
                 erAlrOc := erAlrOc this; erWOrd := erWOrd this |}.

Definition pseudoElement (this : builder) (value : string) : completion Error builder :=
  if pElOc this then Throw (erAlrOc this)
  else Return {| total := total this +:+ "::" +:+ value; prev := "pseudoElem";
                 elOc := elOc this; idOc := idOc this; pElOc := true;
                 erAlrOc := erAlrOc this; erWOrd := erWOrd this |}.

Definition combine (this selector1 : builder) (combinator : string) (selector2 : builder)
  : completion Error builder :=
  Return {| total := total selector1 +:+ " " +:+ combinator +:+ " " +:+ total selector2;
            prev := prev this; elOc := elOc this; idOc := idOc this; pElOc := pElOc this;
            erAlrOc := erAlrOc this; erWOrd := erWOrd this |}.

Definition stringify (this : builder) : string := total this.

(** *** Call chains

    The six fragment categories name the six add-methods; [tag] is the string
    each method stores in [prev] and [fragment] the text it appends. *)

Inductive category : Type :=
| Element | Id | Class | Attribute | PseudoClass | PseudoElement.

Global Instance category_eq_dec : EqDecision category.
Proof. solve_decision. Defined.

Definition add (c : category) : builder -> string -> completion Error builder :=
  match c with
  | Element => element
  | Id => id
  | Class => class
  | Attribute => attr
  | PseudoClass => pseudoClass
  | PseudoElement => pseudoElement
  end.

Definition tag (c : category) : string :=
  match c with
  | Element => "elem"
  | Id => "id"
  | Class => "class"
  | Attribute => "attr"
  | PseudoClass => "pseudoClass"
  | PseudoElement => "pseudoElem"
  end.

Definition fragment (c : category) (value : string) : string :=
  match c with
  | Element => value
  | Id => "#" +:+ value
  | Class => "." +:+ value
  | Attribute => "[" +:+ value +:+ "]"
  | PseudoClass => ":" +:+ value
  | PseudoElement => "::" +:+ value
  end.

(** The rank order of the documented selector grammar
    [element#id.class[attr]:pseudoClass::pseudoElement]. *)
Definition rank (c : category) : nat :=
  match c with
  | Element => 0
  | Id => 1
  | Class => 2
  | Attribute => 3
  | PseudoClass => 4
  | PseudoElement => 5
  end.

(** The occurrence flag an add-method tests first, if it has one. *)
Definition occurred (c : category) (this : builder) : bool :=
  match c with
  | Element => elOc this
  | Id => idOc this
  | PseudoElement => pElOc this
  | Class | Attribute | PseudoClass => false
  end.

(** [refused c c']: the order check of the add-method for [c] throws when
    the last category added is [c']. *)
Definition refused (c c' : category) : bool :=
  match c, c' with
  | Element, _ => true
  | Id, (Class | PseudoElement) => true
  | Class, Attribute => true
  | Attribute, PseudoClass => true
  | PseudoClass, PseudoElement => true
  | _, _ => false
  end.

(** One method call of a fluent chain; the arguments of [combine] are
    builders themselves. *)
Inductive call : Type :=
| Add (c : category) (value : string)
| Combine (selector1 : builder) (combinator : string) (selector2 : builder).

Definition invoke (this : builder) (o : call) : completion Error builder :=
  match o with
  | Add c value => add c this value
  | Combine s1 t s2 => combine this s1 t s2
  end.

(** [this.m1(..).m2(..)...]: the first throw aborts the chain. *)
Fixpoint chain (this : builder) (calls : list call) : completion Error builder :=
  match calls with
  | [] => Return this
  | o :: calls => invoke this o ≫= fun b => chain b calls
  end.

(** The categories of the add-operations of a chain, in call order. *)
Fixpoint added (calls : list call) : list category :=
  match calls with
  | [] => []
  | Add c _ :: calls => c :: added calls
  | Combine _ _ _ :: calls => added calls
  end.

(** The marker a chain leaves in [prev]: the tag of its last add-operation,
    the receiver's marker when it has none. *)
Definition last_tag (p : string) (cs : list category) : string :=
  foldl (fun _ c => tag c) p cs.

(** *** Builders as objects in the store

    A method call reads the receiver (and, for [combine], its two arguments)
    from the store and, when it does not throw, allocates the object literal
    it returns at a fresh location. *)

Definition new_object (b : builder) (σ : gmap loc builder) : loc * gmap loc builder :=
  let l := fresh (dom σ) in (l, <[l := b]> σ).

Inductive method : Type :=
| MAdd (c : category) (value : string)
| MCombine (selector1 : loc) (combinator : string) (selector2 : loc).

(** The builder-level call a method call amounts to, once its reference
    arguments are read; [None] for a dangling reference, which JavaScript
    does not have. *)
Definition deref (σ : gmap loc builder) (m : method) : option call :=
  match m with
  | MAdd c value => Some (Add c value)
  | MCombine l1 t l2 => s1 ← σ !! l1; s2 ← σ !! l2; Some (Combine s1 t s2)
  end.

Definition call_method (this : loc) (m : method) (σ : gmap loc builder)
  : option (completion Error loc * gmap loc builder) :=
  b ← σ !! this;
  o ← deref σ m;
  Some (match invoke b o with
        | Return b' => let '(l, σ') := new_object b' σ in (Return l, σ')
        | Throw e => (Throw e, σ)
        end).

Definition call_stringify (this : loc) (σ : gmap loc builder) : option string :=
  stringify <$> σ !! this.

(** The builder a completed method call denotes. *)
Definition denoted (r : completion Error loc) (σ : gmap loc builder)
  : option (completion Error builder) :=
  match r with
  | Return l => Return <$> σ !! l
  | Throw e => Some (Throw e)
  end.

(** *** The categories of a chain as a history

    The flags and the marker of a builder, read as facts about the
    categories added so far. *)

(** The categories whose add-method keeps an occurrence flag. *)
Definition once_only (c : category) : bool :=
  match c with
  | Element | Id | PseudoElement => true
  | Class | Attribute | PseudoClass => false
  end.

(** The order check of the add-method for [c] against the category added
    last, if any. *)
Definition barred (c : category) (latest : option category) : bool :=
  match latest with
  | Some c' => refused c c'
  | None => false
  end.

(** [admissible seen cs]: after the categories [seen], each of [cs] in turn
    passes the occurrence test and the order check of its add-method. *)
Fixpoint admissible (seen cs : list category) : bool :=
  match cs with
  | [] => true
  | c :: cs =>
      negb (once_only c && bool_decide (c ∈ seen))
      && negb (barred c (last seen))
      && admissible (seen ++ [c]) cs
  end.

(** The documented grammar [element#id.class[attr]:pseudoClass::pseudoElement]:
    ranks do not decrease, and only class, attribute and pseudo-class repeat. *)
Definition may_follow (c' c : category) : bool :=
  (rank c' <? rank c)%nat || (bool_decide (c' = c) && negb (once_only c)).

Fixpoint grammatical (cs : list category) : bool :=
  match cs with
  | [] => true
  | c' :: cs =>
      match cs with
      | [] => true
      | c :: _ => may_follow c' c
      end && grammatical cs
  end.

(** A chain of add-methods only, given by category and argument, and the
    fragments it writes, in call order. *)
Definition adds (l : list (category * string)) : list call :=
  (fun p => Add p.1 p.2) <$> l.

Definition fragments (l : list (category * string)) : string :=
  foldr (fun p t => fragment p.1 p.2 +:+ t) "" l.

End Builder.

(** ** Rectangle (lines 23-27) *)

Module Rectangle.
Section Numbers.

(** JavaScript numbers and their [*] are the host's; the constructor only
    stores and multiplies them. *)
Context {number : Type}.
Variable mul : number -> number -> number.

(** The arrow function [() => this.width * this.height]: a closure over the
    reference [this] of the object under construction. *)
Inductive arrow : Type :=
| AreaOf (this : loc).

Record rectangle : Type := mkRectangle {
  width : number;
  height : number;
  getArea : arrow
}.

(** [new Rectangle(width, height)] *)
Definition Rectangle (width height : number) (σ : gmap loc rectangle)
  : loc * gmap loc rectangle :=
  let this := fresh (dom σ) in
  (this, <[this := {| width := width; height := height; getArea := AreaOf this |}]> σ).

(** Calling the closure reads the fields of the captured object at call time. *)
Definition apply_arrow (f : arrow) (σ : gmap loc rectangle) : option number :=
  match f with
  | AreaOf this => r ← σ !! this; Some (mul (width r) (height r))
  end.

(** [r.getArea()] *)
Definition call_getArea (r : loc) (σ : gmap loc rectangle) : option number :=
  o ← σ !! r; apply_arrow (getArea o) σ.

(** [r.width = w] and [r.height = h], the assignments a client can make. *)
Definition set_width (r : loc) (w : number) (σ : gmap loc rectangle) : gmap loc rectangle :=
  alter (fun o => {| width := w; height := height o; getArea := getArea o |}) r σ.

Definition set_height (r : loc) (h : number) (σ : gmap loc rectangle) : gmap loc rectangle :=
  alter (fun o => {| width := width o; height := h; getArea := getArea o |}) r σ.

(** [r.getArea = f], for a closure taken from a rectangle. *)
Definition set_getArea (r : loc) (f : arrow) (σ : gmap loc rectangle) : gmap loc rectangle :=
  alter (fun o => {| width := width o; height := height o; getArea := f |}) r σ.

End Numbers.
End Rectangle.

(** ** JSON helpers (lines 40-62) *)

Module JSON.
Section Host.

(** The host's numbers, its exceptions and the function values a prototype
    object holds. *)
Context {number exn function : Type}.

(** Plain structural values: what [JSON.parse] produces. *)
#[warnings="-register-all"]
Inductive value : Type :=
| VNull
| VBool (b : bool)
| VNum (n : number)
| VStr (s : string)
| VArr (items : list value)
| VObj (fields : gmap string value).

(** [JSON.stringify] and [JSON.parse] are the host's. *)
Variable JSON_stringify : value -> completion exn string.
Variable JSON_parse : string -> completion exn value.

Definition getJSON (obj : value) : completion exn string :=
  JSON_stringify obj.

(** The prototype of an object: the object given to [fromJSON] as [proto],
    an object or array of the parsed text, or [null].  The given prototype is
    the table of its methods (writable data properties), and its own
    prototype chain ends at [Object.prototype]. *)
#[warnings="-register-all"]
Inductive prototype_of : Type :=
| Proto (methods : gmap string function)
| ProtoValue (v : value)
| ProtoNull.

(** An object: its prototype and its own enumerable data properties. *)
Record object : Type := mkObject {
  prototype : prototype_of;
  own : gmap string value
}.

(** [function constructor() {}; constructor.prototype = proto; new constructor()] *)
Definition new_constructor (proto : gmap string function) : object :=
  {| prototype := Proto proto; own := ∅ |}.

(** A string is the sequence of its code units, here those below 256; the
    string object made from it has one property for each. *)
Fixpoint characters (s : string) : list value :=
  match s with
  | EmptyString => []
  | String c s => VStr (String c EmptyString) :: characters s
  end.

Definition indexed (items : list value) : gmap string value :=
  list_to_map (imap (fun i v => (pretty i, v)) items).

(** The own enumerable string-keyed properties of a value, as
    [Object.assign] reads them from its source. *)
Definition own_enumerable (v : value) : gmap string value :=
  match v with
  | VObj fields => fields
  | VArr items => indexed items
  | VStr s => indexed (characters s)
  | VNull | VBool _ | VNum _ => ∅
  end.

(** Whether a property [__proto__] looked up from the prototype [p] is the
    accessor of [Object.prototype]: no object before it on the chain has a
    property of that name of its own, and the chain does not stop at
    [null]. *)
Definition inherits_accessor (p : prototype_of) : bool :=
  match p with
  | Proto methods => bool_decide (methods !! "__proto__" = None)
  | ProtoValue v => bool_decide (own_enumerable v !! "__proto__" = None)
  | ProtoNull => false
  end.

(** The setter of [Object.prototype.__proto__] called on [o]: an object or
    [null] becomes the prototype of [o], any other value is ignored. *)
Definition set_prototype (o : object) (v : value) : object :=
  match v with
  | VObj _ | VArr _ => {| prototype := ProtoValue v; own := own o |}
  | VNull => {| prototype := ProtoNull; own := own o |}
  | VBool _ | VNum _ | VStr _ => o
  end.

(** [o[k] = v], the [[Set]] that [Object.assign] does for each property: an
    own property is overwritten; [__proto__], when it is not an own property
    and resolves to the accessor of [Object.prototype], runs the setter; any
    other name is absent from the chain or a writable data property there,
    and becomes an own property of [o]. *)
Definition set_property (o : object) (k : string) (v : value) : object :=
  if bool_decide (k = "__proto__") && bool_decide (own o !! k = None)
     && inherits_accessor (prototype o)
  then set_prototype o v
  else {| prototype := prototype o; own := <[k := v]> (own o) |}.

(** [Object.assign(target, source)]: each own enumerable property of the
    source is set on the target. *)
Definition Object_assign (target : object) (source : value) : object :=
  map_fold (fun k v o => set_property o k v) target (own_enumerable source).

Definition fromJSON (proto : gmap string function) (json : string) : completion exn object :=
  obj ← JSON_parse json;
  let res := new_constructor proto in
  mret (Object_assign res obj).


End Host.

Arguments value : clear implicits.
Arguments prototype_of : clear implicits.
Arguments object : clear implicits.

(** *** A host for concrete texts

    A printer and a reader for the escape-free fragment of JSON with integer
    numbers, to run the helpers on concrete texts.  The properties of the
    helpers are proved for any host functions; these two instantiate them. *)

Definition is_space (c : ascii) : bool :=
  bool_decide (c = " "%char) || bool_decide (nat_of_ascii c = 10)
  || bool_decide (nat_of_ascii c = 13) || bool_decide (nat_of_ascii c = 9).

Definition is_digit (c : ascii) : bool :=
  bool_decide (48 ≤ nat_of_ascii c ≤ 57)%nat.

Definition plain_char (c : ascii) : bool :=
  bool_decide (32 ≤ nat_of_ascii c)%nat && negb (bool_decide (nat_of_ascii c = 34))
  && negb (bool_decide (nat_of_ascii c = 92)).

Fixpoint plain (s : string) : bool :=
  match s with
  | EmptyString => true
  | String c s => plain_char c && plain s
  end.

Definition quoted (s : string) : string := dquote +:+ s +:+ dquote.

Definition joined (texts : list string) : string := String.concat "," texts.

Fixpoint printable (v : value Z) : bool :=
  match v with
  | VNull | VBool _ | VNum _ => true
  | VStr s => plain s
  | VArr items => forallb printable items
  | VObj fields =>
      forallb (fun kb => plain kb.1 && kb.2) (map_to_list (printable <$> fields))
  end.

Fixpoint print (v : value Z) : string :=
  match v with
  | VNull => "null"
  | VBool true => "true"
  | VBool false => "false"
  | VNum n => pretty n
  | VStr s => quoted s
  | VArr items => "[" +:+ joined (print <$> items) +:+ "]"
  | VObj fields =>
      "{" +:+ joined ((fun kt => quoted kt.1 +:+ ":" +:+ kt.2) <$> map_to_list (print <$> fields))
      +:+ "}"
  end.

Definition sample_stringify (v : value Z) : completion string string :=
  if printable v then Return (print v) else Throw "TypeError".

Fixpoint skip_spaces (s : string) : string :=
  match s with
  | String c s' => if is_space c then skip_spaces s' else s
  | EmptyString => s
  end.

Fixpoint strip_prefix (p s : string) : option string :=
  match p, s with
  | EmptyString, _ => Some s
  | String a p, String b s => if bool_decide (a = b) then strip_prefix p s else None
  | String _ _, EmptyString => None
  end.

(** The text up to the closing quote, and what follows it. *)
Fixpoint read_string (s : string) : option (string * string) :=
  match s with
  | EmptyString => None
  | String c s' =>
      if bool_decide (nat_of_ascii c = 34) then Some (EmptyString, s')
      else if plain_char c then '(t, rest) ← read_string s'; Some (String c t, rest)
      else None
  end.

Fixpoint read_digits (acc : Z) (s : string) : Z * string :=
  match s with
  | String c s' =>
      if is_digit c then read_digits (10 * acc + Z.of_nat (nat_of_ascii c - 48)) s'
      else (acc, s)
  | EmptyString => (acc, s)
  end.

Definition starts_with_digit (s : string) : bool :=
  match s with
  | String c _ => is_digit c
  | EmptyString => false
  end.

Fixpoint read_value (fuel : nat) (s : string) : option (value Z * string) :=
  match fuel with
  | 0 => None
  | S fuel =>
      let s := skip_spaces s in
      match s with
      | String "n" _ => rest ← strip_prefix "null" s; Some (VNull, rest)
      | String "t" _ => rest ← strip_prefix "true" s; Some (VBool true, rest)
      | String "f" _ => rest ← strip_prefix "false" s; Some (VBool false, rest)
      | String "-" s' =>
          if starts_with_digit s'
          then let '(n, rest) := read_digits 0 s' in Some (VNum (- n)%Z, rest)
          else None
      | String "[" s' =>
          match skip_spaces s' with
          | String "]" rest => Some (VArr [], rest)
          | s' => '(items, rest) ← read_items fuel s'; Some (VArr items, rest)
          end
      | String "{" s' =>
          match skip_spaces s' with
          | String "}" rest => Some (VObj ∅, rest)
          | s' =>
              '(members, rest) ← read_members fuel s';
              Some (VObj (foldl (fun m kv => <[kv.1 := kv.2]> m) ∅ members), rest)
          end
      | String c s' =>
          if bool_decide (nat_of_ascii c = 34)
          then '(t, rest) ← read_string s'; Some (VStr t, rest)
          else if is_digit c
          then let '(n, rest) := read_digits 0 s in Some (VNum n, rest)
          else None
      | EmptyString => None
      end
  end
with read_items (fuel : nat) (s : string) : option (list (value Z) * string) :=
  match fuel with
  | 0 => None
  | S fuel =>
      '(v, rest) ← read_value fuel s;
      match skip_spaces rest with
      | String "," rest => '(vs, rest) ← read_items fuel rest; Some (v :: vs, rest)
      | String "]" rest => Some ([v], rest)
      | _ => None
      end
  end
with read_members (fuel : nat) (s : string) : option (list (string * value Z) * string) :=
  match fuel with
  | 0 => None
  | S fuel =>
      match skip_spaces s with
      | String c s' =>
          if bool_decide (nat_of_ascii c = 34) then
            '(k, rest) ← read_string s';
            match skip_spaces rest with
            | String ":" rest =>
                '(v, rest) ← read_value fuel rest;
                match skip_spaces rest with
                | String "," rest =>
                    '(kvs, rest) ← read_members fuel rest; Some ((k, v) :: kvs, rest)
                | String "}" rest => Some ([(k, v)], rest)
                | _ => None
                end
            | _ => None
            end
          else None
      | EmptyString => None
      end
  end.

Definition sample_parse (s : string) : completion string (value Z) :=
  match read_value (S (String.length s)) s with
  | Some (v, rest) =>
      match skip_spaces rest with
      | EmptyString => Return v
      | String _ _ => Throw "SyntaxError"
      end
  | None => Throw "SyntaxError"
  end.

(** A prototype like [Circle.prototype], its method given by its text. *)
Definition Circle : gmap string string :=
  {["getCircumference" := "function () { return 2 * Math.PI * this.radius; }"]}.



End JSON.

(** * Properties of the selector builder *)

Module BuilderProperties.
Import Builder.

(** What a successful add-method returns, field by field. *)
Lemma add_Return c this value b :
  add c this value = Return b ->
  total b = total this +:+ fragment c value /\ prev b = tag c /\
  (elOc b = true <-> elOc this = true \/ Element = c) /\
  (idOc b = true <-> idOc this = true \/ Id = c) /\
  (pElOc b = true <-> pElOc this = true \/ PseudoElement = c) /\
  erAlrOc b = erAlrOc this /\ erWOrd b = erWOrd this.
Proof.
  destruct c; cbn [add];
    [unfold element | unfold id | unfold class | unfold attr
    | unfold pseudoClass | unfold pseudoElement];
    repeat case_match; intros [= <-]; cbn; repeat split;
    try tauto; try discriminate; intros [?|?]; congruence.
Qed.

Lemma combine_Return this s1 t s2 b :
  combine this s1 t s2 = Return b ->
  total b = total s1 +:+ " " +:+ t +:+ " " +:+ total s2 /\ prev b = prev this /\
  elOc b = elOc this /\ idOc b = idOc this /\ pElOc b = pElOc this /\
  erAlrOc b = erAlrOc this /\ erWOrd b = erWOrd this.
Proof. intros [= <-]. done. Qed.

Lemma chain_cons this o calls b :
  chain this (o :: calls) = Return b <->
  exists b1, invoke this o = Return b1 /\ chain b1 calls = Return b.
Proof.
  cbn [chain]. destruct (invoke this o) as [b1|e]; cbn.
  - split; [eauto | intros (? & [= <-] & ?); done].
  - split; [done | intros (? & ? & _); done].
Qed.

(** The state a chain of calls reaches, in terms of the categories it added. *)
Lemma chain_Return calls : forall this b,
  chain this calls = Return b ->
  prev b = last_tag (prev this) (added calls) /\
  (elOc b = true <-> elOc this = true \/ Element ∈ added calls) /\
  (idOc b = true <-> idOc this = true \/ Id ∈ added calls) /\
  (pElOc b = true <-> pElOc this = true \/ PseudoElement ∈ added calls) /\
  erAlrOc b = erAlrOc this /\ erWOrd b = erWOrd this.
Proof.
  induction calls as [|o calls IH]; intros this b.
  - intros [= <-]. cbn. rewrite !elem_of_nil. tauto.
  - rewrite chain_cons. intros (b1 & Ho & Hb).
    destruct (IH _ _ Hb) as (Hp & He & Hi & Hq & Ha & Hw).
    destruct o as [c value|s1 t s2]; cbn [invoke added] in *.
    + destruct (add_Return _ _ _ _ Ho) as (_ & Hp1 & He1 & Hi1 & Hq1 & Ha1 & Hw1).
      rewrite !elem_of_cons. cbn [last_tag foldl]. fold (last_tag (tag c) (added calls)).
      rewrite <- Hp1. repeat split; try congruence; tauto.
    + destruct (combine_Return _ _ _ _ _ Ho) as (_ & Hp1 & He1 & Hi1 & Hq1 & Ha1 & Hw1).
      rewrite <- Hp1, <- He1, <- Hi1, <- Hq1. repeat split; try congruence; tauto.
Qed.

Lemma tag_nonempty c : tag c <> "".
Proof. by destruct c. Qed.

Lemma last_tag_empty p cs : last_tag p cs = "" <-> p = "" /\ cs = [].
Proof.
  revert p. induction cs as [|c cs IH]; intros p; cbn.
  - tauto.
  - fold (last_tag (tag c) cs). rewrite IH. split; [|intros [_ [=]]].
    intros [H _]. by apply tag_nonempty in H.
Qed.

(** On a chain started at the facade, the flags and the marker record
    exactly which categories were added. *)
Lemma facade_chain calls b :
  chain cssSelectorBuilder calls = Return b ->
  (prev b = "" <-> added calls = []) /\
  (elOc b = true <-> Element ∈ added calls) /\
  (idOc b = true <-> Id ∈ added calls) /\
  (pElOc b = true <-> PseudoElement ∈ added calls) /\
  erAlrOc b = DuplicateFragment /\ erWOrd b = OutOfOrder.
Proof.
  intros H. destruct (chain_Return _ _ _ H) as (Hp & He & Hi & Hq & Ha & Hw).
  cbn in He, Hi, Hq. rewrite Hp, last_tag_empty. cbn.
  repeat split; try tauto; try done; intuition discriminate.
Qed.

(** *** The documented examples *)

Example chain_attr_pseudoClass :
  stringify <$> chain cssSelectorBuilder
    [Add Element "a"; Add Attribute ("href$=" +:+ dquote +:+ ".png" +:+ dquote);
     Add PseudoClass "focus"]
  = Return ("a[href$=" +:+ dquote +:+ ".png" +:+ dquote +:+ "]:focus").
Proof. reflexivity. Qed.

Example chain_id_classes :
  stringify <$> chain cssSelectorBuilder
    [Add Id "main"; Add Class "container"; Add Class "editable"]
  = Return "#main.container.editable".
Proof. reflexivity. Qed.

Example element_twice :
  chain cssSelectorBuilder [Add Element "a"; Add Element "b"] = Throw DuplicateFragment.
Proof. reflexivity. Qed.

Example element_after_id :
  chain cssSelectorBuilder [Add Id "x"; Add Element "a"] = Throw OutOfOrder.
Proof. reflexivity. Qed.

(** *** element() *)

(** C5: on a chain started at the facade, [element(name)] throws the
    duplicate error when an element fragment was added before; otherwise it
    throws the order error when a fragment of any (other) category was
    added before; otherwise, nothing having been added, it returns a builder
    whose text is the receiver's text followed by the bare name. *)
Theorem element_spec calls b name :
  chain cssSelectorBuilder calls = Return b ->
  (Element ∈ added calls -> element b name = Throw DuplicateFragment) /\
  (Element ∉ added calls -> added calls <> [] -> element b name = Throw OutOfOrder) /\
  (added calls = [] ->
   exists b', element b name = Return b' /\ stringify b' = stringify b +:+ name).
Proof.
  intros H. destruct (facade_chain _ _ H) as (Hp & He & _ & _ & Ha & Hw).
  unfold element. repeat split.
  - intros Hin. apply He in Hin. by rewrite Hin, Ha.
  - intros Hnin Hne. destruct (elOc b) eqn:E; [by destruct Hnin; apply He|].
    destruct (String.eqb_spec (prev b) "") as [Hq|Hq]; [by apply Hp in Hq|].
    cbn. by rewrite Hw.
  - intros Hnil. destruct (elOc b) eqn:E.
    + assert (Hin : Element ∈ added calls) by (by apply He).
      rewrite Hnil in Hin. by apply elem_of_nil in Hin.
    + apply Hp in Hnil. rewrite Hnil. cbn. eauto.
Qed.

Lemma element_spec_witness :
  chain cssSelectorBuilder [Add Id "x"] =
    Return {| total := "#x"; prev := "id"; elOc := false; idOc := true; pElOc := false;
              erAlrOc := DuplicateFragment; erWOrd := OutOfOrder |} /\
  element {| total := "#x"; prev := "id"; elOc := false; idOc := true; pElOc := false;
             erAlrOc := DuplicateFragment; erWOrd := OutOfOrder |} "a" = Throw OutOfOrder.
Proof.
  split; [reflexivity|].
  refine (proj1 (proj2 (element_spec [Add Id "x"] _ "a" _)) _ _).
  - reflexivity.
  - cbn. intros Hin. apply elem_of_cons in Hin as [Hin|Hin]; [discriminate|].
    by apply elem_of_nil in Hin.
  - discriminate.
Defined.

(** C10: in [element()] and [id()] the duplicate check comes first: on a
    chain started at the facade that already added an element (an id), a
    further [element()] ([id()]) throws the duplicate error whatever was
    added after it, so also when the call is out of order as well. *)
Theorem duplicate_before_order calls b value :
  chain cssSelectorBuilder calls = Return b ->
  (Element ∈ added calls -> element b value = Throw DuplicateFragment) /\
  (Id ∈ added calls -> id b value = Throw DuplicateFragment).
Proof.
  intros H. destruct (facade_chain _ _ H) as (_ & He & Hi & _ & Ha & _).
  split; intros Hin.
  - apply He in Hin. unfold element. by rewrite Hin, Ha.
  - apply Hi in Hin. unfold id. by rewrite Hin, Ha.
Qed.

Lemma duplicate_before_order_witness :
  chain cssSelectorBuilder [Add Element "a"; Add Class "c"; Add Element "b"]
    = Throw DuplicateFragment /\
  chain cssSelectorBuilder [Add Id "a"; Add Class "c"; Add Id "b"]
    = Throw DuplicateFragment.
Proof.
  split.
  - change (element {| total := "a.c"; prev := "class"; elOc := true; idOc := false;
                       pElOc := false; erAlrOc := DuplicateFragment;
                       erWOrd := OutOfOrder |} "b" = Throw DuplicateFragment).
    refine (proj1 (duplicate_before_order [Add Element "a"; Add Class "c"] _ "b" _) _).
    + reflexivity.
    + cbn. apply list_elem_of_here.
  - change (id {| total := "#a.c"; prev := "class"; elOc := false; idOc := true;
                  pElOc := false; erAlrOc := DuplicateFragment;
                  erWOrd := OutOfOrder |} "b" = Throw DuplicateFragment).
    refine (proj2 (duplicate_before_order [Add Id "a"; Add Class "c"] _ "b" _) _).
    + reflexivity.
    + cbn. apply list_elem_of_here.
Defined.

(** *** combine() *)

(** C4: [combine] never throws; its text is the text of the first
    selector, a space, the combinator as given, a space and the text of the
    second selector, whatever the two selectors are. *)
Theorem combine_text :
  (forall this A t B, exists c,
     combine this A t B = Return c /\
     stringify c = stringify A +:+ " " +:+ t +:+ " " +:+ stringify B) /\
  (A ← chain cssSelectorBuilder [Add Element "div"; Add Id "main"];
   B ← chain cssSelectorBuilder [Add Element "table"; Add Id "data"];
   stringify <$> combine cssSelectorBuilder A "+" B) = Return "div#main + table#data".
Proof.
  split; [|reflexivity].
  intros this A t B. eexists. split; reflexivity.
Qed.

(** The nested example of the documentation: the combinator [' '] is
    padded like any other. *)
Example combine_nested :
  (A ← chain cssSelectorBuilder
         [Add Element "div"; Add Id "main"; Add Class "container"; Add Class "draggable"];
   B ← chain cssSelectorBuilder [Add Element "table"; Add Id "data"];
   C ← chain cssSelectorBuilder [Add Element "tr"; Add PseudoClass "nth-of-type(even)"];
   D ← chain cssSelectorBuilder [Add Element "td"; Add PseudoClass "nth-of-type(even)"];
   CD ← combine cssSelectorBuilder C " " D;
   BCD ← combine cssSelectorBuilder B "~" CD;
   stringify <$> combine cssSelectorBuilder A "+" BCD)
  = Return "div#main.container.draggable + table#data ~ tr:nth-of-type(even)   td:nth-of-type(even)".
Proof. reflexivity. Qed.

(** C9: the builder [combine] returns has the flags and the marker of the
    receiver; called on the facade it has none set, so every add-method
    called on it returns, and appends its fragment to the combined text. *)
Theorem combine_keeps_receiver_state :
  (forall this A t B, exists c,
     combine this A t B = Return c /\
     prev c = prev this /\ elOc c = elOc this /\ idOc c = idOc this /\
     pElOc c = pElOc this) /\
  (forall A t B cat value, exists c b,
     combine cssSelectorBuilder A t B = Return c /\
     prev c = "" /\ elOc c = false /\ idOc c = false /\ pElOc c = false /\
     add cat c value = Return b /\
     stringify b = (stringify A +:+ " " +:+ t +:+ " " +:+ stringify B) +:+ fragment cat value).
Proof.
  split.
  - intros this A t B. eexists. repeat split; reflexivity.
  - intros A t B cat value. destruct cat; do 2 eexists; repeat split; reflexivity.
Qed.

(** *** The order checks *)

(** Right after a fragment of category [c'], an add-method whose fragment
    has not occurred throws the order error for the pairs of [refused], and
    returns for every other pair. *)
Lemma add_after c c' this value :
  prev this = tag c' -> occurred c this = false ->
  if refused c c' then add c this value = Throw (erWOrd this)
  else exists b, add c this value = Return b.
Proof.
  intros Hp Ho.
  destruct c; cbn [add occurred] in *;
    [unfold element | unfold id | unfold class | unfold attr
    | unfold pseudoClass | unfold pseudoElement];
    rewrite ?Ho, ?Hp; destruct c'; cbn; eauto.
Qed.

(** The pairs refused are some, not all, of those against the rank order. *)
Lemma refused_rank c c' : refused c c' = true -> c = c' \/ rank c < rank c'.
Proof. destruct c, c'; cbn; intros; (discriminate || (right; lia) || by left). Qed.

Lemma rank_not_refused :
  filter (fun p => rank p.1 < rank p.2 /\ refused p.1 p.2 = false)
    (c ← [Element; Id; Class; Attribute; PseudoClass; PseudoElement];
     c' ← [Element; Id; Class; Attribute; PseudoClass; PseudoElement];
     [(c, c')])
  = [(Id, Attribute); (Id, PseudoClass); (Class, PseudoClass); (Class, PseudoElement);
     (Attribute, PseudoElement)].
Proof. reflexivity. Qed.

(** C1: the order checks do not enforce the rank order.  [class()] after
    [pseudoClass()] or [pseudoElement()], and [attr()] after
    [pseudoElement()], target a category of lower rank than one already
    added, and each of these calls returns a builder instead of throwing the
    order error. *)
Theorem lower_rank_after_higher_returns :
  (rank Class < rank PseudoClass /\
   stringify <$> chain cssSelectorBuilder [Add PseudoClass "hover"; Add Class "c"]
     = Return ":hover.c") /\
  (rank Class < rank PseudoElement /\
   stringify <$> chain cssSelectorBuilder [Add PseudoElement "after"; Add Class "c"]
     = Return "::after.c") /\
  (rank Attribute < rank PseudoElement /\
   stringify <$> chain cssSelectorBuilder [Add PseudoElement "after"; Add Attribute "x"]
     = Return "::after[x]").
Proof. repeat split; cbn; lia. Qed.

(** C2: [id()] checks the marker against class and pseudo-element only:
    after [attr()] and after [pseudoClass()] it returns a builder instead of
    throwing the order error. *)
Theorem id_after_attr_returns :
  stringify <$> chain cssSelectorBuilder [Add Attribute "x"; Add Id "y"] = Return "[x]#y" /\
  stringify <$> chain cssSelectorBuilder [Add PseudoClass "x"; Add Id "y"] = Return ":x#y".
Proof. split; reflexivity. Qed.

(** *** Method calls on the store *)

Lemma new_object_fresh b (σ : gmap loc builder) :
  σ !! (new_object b σ).1 = None /\ (new_object b σ).2 = <[(new_object b σ).1 := b]> σ.
Proof. split; [|done]. apply not_elem_of_dom, is_fresh. Qed.

Lemma deref_weaken σ σ' m o :
  σ ⊆ σ' -> deref σ m = Some o -> deref σ' m = Some o.
Proof.
  intros Hsub. destruct m as [c value|l1 t l2]; cbn; [done|].
  destruct (σ !! l1) as [s1|] eqn:H1; [|done]. cbn.
  destruct (σ !! l2) as [s2|] eqn:H2; [|done]. cbn. intros [= <-].
  by rewrite (lookup_weaken _ _ _ _ H1 Hsub), (lookup_weaken _ _ _ _ H2 Hsub).
Qed.

(** A method call on valid references completes; it extends the store by at
    most the returned object, which is the builder computed from the
    receiver as found. *)
Lemma call_method_spec σ this b m o :
  σ !! this = Some b -> deref σ m = Some o ->
  exists r σ', call_method this m σ = Some (r, σ') /\
    σ ⊆ σ' /\ denoted r σ' = Some (invoke b o) /\
    (forall l, r = Return l -> σ !! l = None).
Proof.
  intros Hthis Hm. unfold call_method. rewrite Hthis, Hm. cbn -[new_object].
  destruct (invoke b o) as [b'|e].
  - destruct (new_object_fresh b' σ) as [Hl Hσ].
    destruct (new_object b' σ) as [l σ']. cbn in Hl, Hσ. subst σ'.
    exists (Return l), (<[l := b']> σ). repeat split.
    + by apply insert_subseteq.
    + cbn. by rewrite lookup_insert_eq.
    + by intros ? [= <-].
  - exists (Throw e), σ. repeat split; done.
Qed.

(** C3: a method call (an add-method or [combine]) leaves every object of
    the store as it was, the receiver in particular: its text is the same
    after the call, the object returned is a new one, and a second call on
    the same receiver derives its result from the unchanged receiver. *)
Theorem receiver_unchanged σ this b m o :
  σ !! this = Some b -> deref σ m = Some o ->
  exists r σ', call_method this m σ = Some (r, σ') /\
    (forall l, is_Some (σ !! l) -> σ' !! l = σ !! l) /\
    σ' !! this = Some b /\
    call_stringify this σ' = call_stringify this σ /\
    (forall l, r = Return l -> l <> this /\ σ !! l = None) /\
    (forall m2 o2, deref σ m2 = Some o2 ->
       exists r2 σ2, call_method this m2 σ' = Some (r2, σ2) /\
         denoted r2 σ2 = Some (invoke b o2) /\
         call_stringify this σ2 = call_stringify this σ).
Proof.
  intros Hthis Hm.
  destruct (call_method_spec _ _ _ _ _ Hthis Hm) as (r & σ' & Hcall & Hsub & _ & Hnew).
  assert (Hthis' : σ' !! this = Some b) by (by eapply lookup_weaken).
  exists r, σ'. split; [done|]. repeat split.
  - intros l [x Hx]. rewrite Hx. by eapply lookup_weaken.
  - done.
  - unfold call_stringify. by rewrite Hthis, Hthis'.
  - intros ->. apply Hnew in H. congruence.
  - by apply Hnew.
  - intros m2 o2 Hm2. apply (deref_weaken _ _ _ _ Hsub) in Hm2.
    destruct (call_method_spec _ _ _ _ _ Hthis' Hm2) as (r2 & σ2 & Hcall2 & Hsub2 & Hd & _).
    exists r2, σ2. repeat split; [done..|].
    unfold call_stringify. by rewrite Hthis, (lookup_weaken _ _ _ _ Hthis' Hsub2).
Qed.

Lemma receiver_unchanged_witness :
  exists r σ',
    call_method 1%positive (MAdd Class "x") {[1%positive := cssSelectorBuilder]} = Some (r, σ') /\
    call_stringify 1%positive σ' = Some "".
Proof.
  assert (H1 : ({[1%positive := cssSelectorBuilder]} : gmap loc builder) !! 1%positive
               = Some cssSelectorBuilder) by (vm_compute; reflexivity).
  destruct (receiver_unchanged {[1%positive := cssSelectorBuilder]} 1%positive
              cssSelectorBuilder (MAdd Class "x") (Add Class "x") H1 eq_refl)
    as (r & σ' & Hcall & _ & _ & Hs & _).
  exists r, σ'. split; [exact Hcall|]. rewrite Hs. vm_compute. reflexivity.
Defined.

(** [b2 = b1.class('x')] then [b3 = b1.class('y')] on a base [b1 = id('main')]. *)
Example base_reused :
  ('(r1, σ1) ← call_method 1%positive (MAdd Id "main") {[1%positive := cssSelectorBuilder]};
   b1 ← returned r1;
   '(r2, σ2) ← call_method b1 (MAdd Class "x") σ1;
   b2 ← returned r2;
   '(r3, σ3) ← call_method b1 (MAdd Class "y") σ2;
   b3 ← returned r3;
   s1 ← call_stringify b1 σ3;
   s2 ← call_stringify b2 σ3;
   s3 ← call_stringify b3 σ3;
   Some (s1, s2, s3))
  = Some ("#main", "#main.x", "#main.y").
Proof. vm_compute. reflexivity. Qed.

End BuilderProperties.


(** * Properties of Rectangle *)

Module RectangleProperties.
Import Rectangle.

Section Numbers.
Context {number : Type}.
Variable mul : number -> number -> number.

Lemma Rectangle_fresh (w h : number) (σ : gmap loc rectangle) :
  σ !! (Rectangle w h σ).1 = None.
Proof. apply not_elem_of_dom, is_fresh. Qed.

Lemma Rectangle_lookup (w h : number) (σ : gmap loc rectangle) :
  (Rectangle w h σ).2 !! (Rectangle w h σ).1
  = Some {| width := w; height := h; getArea := AreaOf (Rectangle w h σ).1 |}.
Proof. cbn. by rewrite lookup_insert_eq. Qed.

(** C7: the object [new Rectangle(w, h)] constructs holds exactly [w] and
    [h], for any numbers; [getArea()] returns their product, and after an
    assignment to [width] or [height] the product of the values the fields
    hold at the time of the call. *)
Theorem Rectangle_getArea (w h : number) (σ : gmap loc rectangle) :
  let r := (Rectangle w h σ).1 in
  let σ' := (Rectangle w h σ).2 in
  width <$> σ' !! r = Some w /\
  height <$> σ' !! r = Some h /\
  call_getArea mul r σ' = Some (mul w h) /\
  (forall w', call_getArea mul r (set_width r w' σ') = Some (mul w' h)) /\
  (forall h', call_getArea mul r (set_height r h' σ') = Some (mul w h')) /\
  (forall w' h', call_getArea mul r (set_height r h' (set_width r w' σ')) = Some (mul w' h')).
Proof.
  intros r σ'. pose proof (Rectangle_lookup w h σ) as Hr. fold r σ' in Hr.
  clearbody r σ'. unfold call_getArea, set_width, set_height.
  repeat split; intros;
    rewrite ?lookup_alter_eq, ?Hr; cbn;
    rewrite ?lookup_alter_eq, ?Hr; done.
Qed.

End Numbers.

Example Rectangle_10_20 :
  let '(r, σ) := Rectangle 10%Z 20%Z ∅ in
  (width <$> σ !! r, height <$> σ !! r, call_getArea Z.mul r σ)
  = (Some 10%Z, Some 20%Z, Some 200%Z).
Proof. vm_compute. reflexivity. Qed.

Example Rectangle_negative_zero :
  let '(r, σ) := Rectangle (-3)%Z 0%Z ∅ in
  (width <$> σ !! r, height <$> σ !! r, call_getArea Z.mul r σ,
   call_getArea Z.mul r (set_height r 7%Z σ))
  = (Some (-3)%Z, Some 0%Z, Some 0%Z, Some (-21)%Z).
Proof. vm_compute. reflexivity. Qed.

End RectangleProperties.

(** * Properties of the JSON helpers *)

Module JSONProperties.
Import JSON.

(** The decimal text of a number is not the name [__proto__]. *)
Lemma pretty_N_go_no_underscore (x : N) : forall s t,
  s <> String "_" t -> pretty_N_go x s <> String "_" t.
Proof.
  induction (N.lt_wf_0 x) as [x _ IH]. intros s t Hs.
  destruct (decide (x = 0%N)) as [->|Hx].
  - by rewrite pretty_N_go_0.
  - rewrite pretty_N_go_step by lia. apply IH.
    + apply N.div_lt; lia.
    + unfold pretty_N_char. repeat case_match; discriminate.
Qed.

Lemma pretty_not_proto (i : nat) : pretty i <> "__proto__".
Proof.
  unfold pretty, pretty_nat, pretty, pretty_N. case_decide; [discriminate|].
  by apply pretty_N_go_no_underscore.
Qed.

Section Host.
Context {number exn function : Type}.
Variable JSON_stringify : value number -> completion exn string.
Variable JSON_parse : string -> completion exn (value number).

(** The properties of an array, and of a string, by index. *)
Lemma indexed_keys (items : list (value number)) :
  (imap (fun i v => (pretty i, v)) items).*1 = pretty <$> seq 0 (List.length items).
Proof. rewrite fmap_imap. apply (imap_seq_0 items pretty). Qed.

Lemma indexed_lookup_Some (items : list (value number)) k v :
  indexed items !! k = Some v <-> exists i : nat, k = pretty i /\ items !! i = Some v.
Proof.
  unfold indexed. rewrite <- elem_of_list_to_map.
  - rewrite elem_of_lookup_imap. split.
    + intros (i & y & [= -> ->] & Hi). eauto.
    + intros (i & -> & Hi). eauto.
  - rewrite indexed_keys. apply (NoDup_fmap_2 _), NoDup_seq.
Qed.

Lemma indexed_lookup (items : list (value number)) (i : nat) :
  indexed items !! pretty i = items !! i.
Proof.
  destruct (items !! i) as [v|] eqn:Hi.
  - apply indexed_lookup_Some. eauto.
  - destruct (indexed items !! pretty i) as [v|] eqn:Hk; [|done].
    apply indexed_lookup_Some in Hk as (j & Hj%(inj pretty) & Hv). congruence.
Qed.

Lemma indexed_no_proto (items : list (value number)) :
  indexed items !! "__proto__" = None.
Proof.
  destruct (indexed items !! "__proto__") as [v|] eqn:Hk; [|done].
  apply indexed_lookup_Some in Hk as (i & Hi & _). symmetry in Hi.
  by apply pretty_not_proto in Hi.
Qed.


(** What [Object.assign] leaves of a fresh object with prototype [proto]:
    the properties of the source become own properties, except that a
    property [__proto__] goes to the setter when [proto] has no property of
    that name. *)
Lemma Object_assign_new (proto : gmap string function) (source : value number) :
  Object_assign (new_constructor proto) source =
    match own_enumerable source !! "__proto__" with
    | Some p =>
        if bool_decide (proto !! "__proto__" = None)
        then set_prototype
               {| prototype := Proto proto; own := delete "__proto__" (own_enumerable source) |} p
        else {| prototype := Proto proto; own := own_enumerable source |}
    | None => {| prototype := Proto proto; own := own_enumerable source |}
    end.
Proof.
  unfold Object_assign.
  apply (map_fold_weak_ind (fun r (m : gmap string (value number)) =>
    r = match m !! "__proto__" with
        | Some p =>
            if bool_decide (proto !! "__proto__" = None)
            then set_prototype {| prototype := Proto proto; own := delete "__proto__" m |} p
            else {| prototype := Proto proto; own := m |}
        | None => {| prototype := Proto proto; own := m |}
        end)); [done|].
  intros k x m r Hk ->. destruct (decide (k = "__proto__")) as [->|Hne].
  - rewrite Hk, lookup_insert_eq. unfold set_property. cbn [own prototype inherits_accessor].
    rewrite Hk, delete_insert_eq, (delete_id _ _ Hk).
    rewrite !bool_decide_eq_true_2 by done. cbn.
    by destruct (bool_decide (proto !! "__proto__" = None)).
  - rewrite lookup_insert_ne by done. unfold set_property.
    rewrite (bool_decide_eq_false_2 (k = "__proto__")) by done. cbn.
    destruct (m !! "__proto__") as [p|] eqn:Hp; [|done].
    destruct (bool_decide (proto !! "__proto__" = None)); [|done].
    rewrite delete_insert_ne by done. by destruct p.
Qed.

(** [fromJSON] in terms of the host's parse: assigning to the fresh object
    never throws. *)
Lemma fromJSON_unfold (proto : gmap string function) (json : string) :
  fromJSON JSON_parse proto json =
    match JSON_parse json with
    | Return v => Return (Object_assign (new_constructor proto) v)
    | Throw e => Throw e
    end.
Proof. unfold fromJSON. by destruct (JSON_parse json). Qed.

(** Without a property [__proto__] in the source, every property of the
    source becomes an own property and the prototype stays. *)
Lemma Object_assign_plain (proto : gmap string function) (source : value number) :
  own_enumerable source !! "__proto__" = None ->
  Object_assign (new_constructor proto) source
  = {| prototype := Proto proto; own := own_enumerable source |}.
Proof. intros H. by rewrite Object_assign_new, H. Qed.



End Host.

(** *** On concrete texts *)





Example getJSON_radius :
  getJSON sample_stringify (VObj {["radius" := VNum 10%Z]})
  = Return ("{" +:+ quoted "radius" +:+ ":10}").
Proof. vm_compute. reflexivity. Qed.

Example fromJSON_Circle :
  fromJSON sample_parse Circle ("{" +:+ quoted "radius" +:+ ":10}")
  = Return {| prototype := Proto Circle; own := {["radius" := VNum 10%Z]} |}.
Proof. vm_compute. reflexivity. Qed.

Example fromJSON_malformed :
  fromJSON sample_parse Circle "{radius:10" = Throw "SyntaxError".
Proof. vm_compute. reflexivity. Qed.

Example fromJSON_other_fields :
  fromJSON sample_parse Circle ("{" +:+ quoted "color" +:+ ":" +:+ quoted "red" +:+ "}")
  = Return {| prototype := Proto Circle; own := {["color" := VStr "red"]} |}.
Proof. vm_compute. reflexivity. Qed.

End JSONProperties.

(** * The selector builder as a state machine *)

Module BuilderChains.
Import Builder BuilderProperties.

Lemma append_assoc (s t u : string) : (s +:+ t) +:+ u = s +:+ t +:+ u.
Proof.
  induction s as [|a s IH]; [done|].
  change (String a ((s +:+ t) +:+ u) = String a (s +:+ t +:+ u)). by rewrite IH.
Qed.

Lemma append_nil_r (s : string) : s +:+ "" = s.
Proof.
  induction s as [|a s IH]; [done|].
  change (String a (s +:+ "") = String a s). by rewrite IH.
Qed.

Lemma chain_app this l1 l2 :
  chain this (l1 ++ l2) = chain this l1 ≫= fun b => chain b l2.
Proof.
  revert this. induction l1 as [|o l1 IH]; intros this; cbn; [done|].
  destruct (invoke this o) as [b|e]; cbn; [apply IH|done].
Qed.

Lemma added_app l1 l2 : added (l1 ++ l2) = (added l1 ++ added l2)%list.
Proof.
  induction l1 as [|[c v|s1 t s2] l1 IH]; cbn; [done| |done]. by rewrite IH.
Qed.

Lemma last_tag_last p cs : last_tag p cs = from_option tag p (last cs).
Proof.
  revert p. induction cs as [|c cs IH]; intros p; [done|].
  cbn [last_tag foldl]. fold (last_tag (tag c) cs). rewrite IH, last_cons.
  by destruct (last cs).
Qed.

(** On a chain started at the facade the marker names the category added
    last, and an occurrence flag is set when its category was added. *)
Lemma facade_prev calls b :
  chain cssSelectorBuilder calls = Return b ->
  prev b = from_option tag "" (last (added calls)).
Proof.
  intros H. destruct (chain_Return _ _ _ H) as (Hp & _). by rewrite Hp, last_tag_last.
Qed.

Lemma facade_occurred calls b c :
  chain cssSelectorBuilder calls = Return b ->
  occurred c b = true <-> once_only c = true /\ c ∈ added calls.
Proof.
  intros H. destruct (facade_chain _ _ H) as (_ & He & Hi & Hq & _).
  destruct c; cbn; rewrite ?He, ?Hi, ?Hq; intuition discriminate.
Qed.

(** The two tests of an add-method, on a receiver whose marker names
    [latest]. *)
Lemma add_cases c this value latest :
  prev this = from_option tag "" latest ->
  (occurred c this = true -> add c this value = Throw (erAlrOc this)) /\
  (occurred c this = false -> barred c latest = true ->
   add c this value = Throw (erWOrd this)) /\
  (occurred c this = false -> barred c latest = false ->
   exists b, add c this value = Return b).
Proof.
  intros Hp. repeat split; intros Ho; [|intros Hb..];
    destruct c; cbn [occurred] in Ho;
    cbv [add element id class attr pseudoClass pseudoElement];
    rewrite ?Ho, ?Hp; try done;
    destruct latest as [[]|]; cbn in *; eauto; done.
Qed.

(** X1: on a builder reached by any chain of calls from the facade, an
    add-method throws the duplicate error when its category is element, id or
    pseudo-element and was added before; otherwise it throws the order error
    when its order check bars the category added last; otherwise it returns
    a builder whose text is the receiver's text followed by the fragment. *)
Theorem add_on_chain calls b c value :
  chain cssSelectorBuilder calls = Return b ->
  (once_only c = true -> c ∈ added calls -> add c b value = Throw DuplicateFragment) /\
  (~ (once_only c = true /\ c ∈ added calls) -> barred c (last (added calls)) = true ->
   add c b value = Throw OutOfOrder) /\
  (~ (once_only c = true /\ c ∈ added calls) -> barred c (last (added calls)) = false ->
   exists b', add c b value = Return b' /\
     stringify b' = stringify b +:+ fragment c value /\ prev b' = tag c).
Proof.
  intros H.
  destruct (add_cases c b value _ (facade_prev _ _ H)) as (Hdup & Hord & Hret).
  pose proof (facade_occurred _ _ c H) as Hocc.
  destruct (facade_chain _ _ H) as (_ & _ & _ & _ & Ha & Hw).
  rewrite Ha in Hdup. rewrite Hw in Hord.
  assert (Hfalse : ~ (once_only c = true /\ c ∈ added calls) -> occurred c b = false).
  { intros Hn. destruct (occurred c b) eqn:E; [|done]. by destruct Hn; apply Hocc. }
  repeat split.
  - intros Ho Hin. apply Hdup, Hocc. done.
  - intros Hn Hb. by apply Hord; [apply Hfalse|].
  - intros Hn Hb. destruct (Hret (Hfalse Hn) Hb) as [b' Hb']. exists b'.
    destruct (add_Return _ _ _ _ Hb') as (Ht & Hp & _). done.
Qed.

Lemma add_on_chain_witness :
  add PseudoClass
    {| total := "a::after"; prev := "pseudoElem"; elOc := true; idOc := false;
       pElOc := true; erAlrOc := DuplicateFragment; erWOrd := OutOfOrder |} "hover"
  = Throw OutOfOrder.
Proof.
  refine (proj1 (proj2 (add_on_chain [Add Element "a"; Add PseudoElement "after"]
                          _ PseudoClass "hover" _)) _ _).
  - reflexivity.
  - intros [Hdup _]. discriminate Hdup.
  - reflexivity.
Defined.

(** The text of a chain of add-methods. *)
Lemma adds_total l : forall this b,
  chain this (adds l) = Return b -> total b = total this +:+ fragments l.
Proof.
  induction l as [|[c v] l IH]; intros this b.
  - intros [= <-]. cbn. by rewrite append_nil_r.
  - unfold adds. rewrite fmap_cons. fold (adds l). rewrite chain_cons.
    intros (b1 & Hb1 & Hb). cbn [invoke fst snd] in Hb1.
    destruct (add_Return _ _ _ _ Hb1) as (Ht & _).
    rewrite (IH _ _ Hb), Ht. cbn [fragments foldr fst snd]. fold (fragments l).
    apply append_assoc.
Qed.

Lemma added_adds l : added (adds l) = l.*1.
Proof. induction l as [|[c v] l IH]; cbn; [done|]. by rewrite <- IH. Qed.

(** X2: a chain of add-methods that returns yields the text of its
    receiver followed by the fragments in call order; after [combine] the
    text starts over from the combined text. *)
Theorem chain_adds_text this l b :
  chain this (adds l) = Return b ->
  stringify b = stringify this +:+ fragments l /\
  (forall that A t B b',
     chain that (Combine A t B :: adds l) = Return b' ->
     stringify b' = (stringify A +:+ " " +:+ t +:+ " " +:+ stringify B) +:+ fragments l).
Proof.
  intros H. split; [by apply adds_total|].
  intros that A t B b'. rewrite chain_cons. intros (c & [= <-] & Hb').
  unfold stringify. by rewrite (adds_total _ _ _ Hb').
Qed.

Lemma chain_adds_text_witness :
  stringify
    {| total := "#main.container.editable"; prev := "class"; elOc := false;
       idOc := true; pElOc := false; erAlrOc := DuplicateFragment;
       erWOrd := OutOfOrder |}
  = stringify cssSelectorBuilder
    +:+ fragments [(Id, "main"); (Class, "container"); (Class, "editable")].
Proof.
  refine (proj1 (chain_adds_text cssSelectorBuilder
                   [(Id, "main"); (Class, "container"); (Class, "editable")] _ _)).
  reflexivity.
Defined.

(** A chain continued from a builder reached from the facade returns when
    its categories are admissible after those already added, and only
    then. *)
Lemma chain_admissible calls : forall pre b,
  chain cssSelectorBuilder pre = Return b ->
  (exists b', chain b calls = Return b') <->
  admissible (added pre) (added calls) = true.
Proof.
  induction calls as [|o calls IH]; intros pre b Hpre.
  - cbn. split; eauto.
  - assert (Hnext : forall b1, invoke b o = Return b1 ->
                    chain cssSelectorBuilder (pre ++ [o]) = Return b1).
    { intros b1 Ho. rewrite chain_app, Hpre. cbn. by rewrite Ho. }
    destruct o as [c v|A t B]; cbn [added admissible].
    + destruct (add_cases c b v _ (facade_prev _ _ Hpre)) as (Hdup & Hord & Hret).
      pose proof (facade_occurred _ _ c Hpre) as Hocc.
      rewrite !andb_true_iff, !negb_true_iff, andb_false_iff, bool_decide_eq_false.
      split.
      * intros (b' & (b1 & Hb1 & Hb')%chain_cons). cbn [invoke] in Hb1.
        destruct (occurred c b) eqn:Eo; [rewrite Hdup in Hb1; done|].
        destruct (barred c (last (added pre))) eqn:Eb; [rewrite Hord in Hb1; done|].
        repeat split.
        -- destruct (once_only c) eqn:E1; [right|by left].
           intros Hin. assert (false = true) by (by apply Hocc). done.
        -- pose proof (Hnext _ Hb1) as Hn.
           assert (Hadm : exists b', chain b1 calls = Return b') by eauto.
           apply (IH _ _ Hn) in Hadm. by rewrite added_app in Hadm.
      * intros [[Hrep Hbar] Hadm].
        assert (Eo : occurred c b = false).
        { destruct (occurred c b) eqn:E; [|done].
          destruct Hocc as [[E1 E2] _]; [done|]. destruct Hrep; congruence. }
        destruct (Hret Eo Hbar) as [b1 Hb1]. pose proof (Hnext _ Hb1) as Hn.
        replace (added pre ++ [c])%list with (added (pre ++ [Add c v])) in Hadm
          by (by rewrite added_app).
        apply (IH _ _ Hn) in Hadm as [b' Hb']. exists b'. apply chain_cons. eauto.
    + pose proof (Hnext _ eq_refl) as Hn.
      replace (added pre) with (added (pre ++ [Combine A t B]))
        by (rewrite added_app; apply app_nil_r).
      rewrite <- (IH _ _ Hn). split.
      * intros (b' & (b1 & [= <-] & Hb')%chain_cons). eauto.
      * intros [b' Hb']. exists b'. apply chain_cons. eauto.
Qed.

Lemma admissible_returns calls :
  admissible [] (added calls) = true -> exists b, chain cssSelectorBuilder calls = Return b.
Proof. apply (chain_admissible calls [] cssSelectorBuilder). reflexivity. Qed.

(** X3: a chain of calls on the facade returns exactly when, reading the
    categories of its add-methods in call order, none of element, id and
    pseudo-element comes twice and none is barred by the order check against
    the one just before it; [combine] calls in between change nothing. *)
Theorem chain_returns_iff calls :
  (exists b, chain cssSelectorBuilder calls = Return b) <->
  admissible [] (added calls) = true.
Proof. apply (chain_admissible calls [] cssSelectorBuilder). reflexivity. Qed.

Lemma admissible_Element cs : forall seen,
  seen <> [] -> admissible seen cs = true -> Element ∉ cs.
Proof.
  induction cs as [|c cs IH]; intros seen Hne; [intros _; apply not_elem_of_nil|].
  cbn [admissible]. rewrite !andb_true_iff, !negb_true_iff.
  intros [[_ Hbar] Hadm]. apply not_elem_of_cons. split.
  - intros <-. destruct (last seen) as [c'|] eqn:E; [done|].
    by apply last_None in E.
  - apply (IH (seen ++ [c])%list); [|done]. by destruct seen.
Qed.

(** X4: in a chain on the facade that returns, an element fragment can
    only be the first fragment added: when [element()] is among the calls, it
    is the first add-method and no other comes later. *)
Theorem element_is_first calls b :
  chain cssSelectorBuilder calls = Return b ->
  Element ∈ added calls ->
  exists cs, added calls = Element :: cs /\ Element ∉ cs.
Proof.
  intros H Hin.
  assert (Hadm : admissible [] (added calls) = true).
  { apply (chain_admissible calls [] cssSelectorBuilder); [done|eauto]. }
  destruct (added calls) as [|c cs]; [by apply elem_of_nil in Hin|].
  cbn [admissible] in Hadm. apply andb_true_iff in Hadm as [_ Hadm].
  apply admissible_Element in Hadm; [|done].
  apply elem_of_cons in Hin as [<-|Hin]; [eauto|done].
Qed.

Lemma element_is_first_witness :
  exists cs, added [Add Element "a"; Combine cssSelectorBuilder "+" cssSelectorBuilder;
                    Add Class "c"] = Element :: cs /\ Element ∉ cs.
Proof.
  refine (element_is_first _ _ _ _).
  - reflexivity.
  - cbn. apply list_elem_of_here.
Defined.

Lemma may_follow_rank c' c : may_follow c' c = true -> rank c' <= rank c.
Proof. destruct c', c; cbn; intros; (discriminate || lia). Qed.

Lemma may_follow_refused c' c : may_follow c' c = true -> refused c c' = false.
Proof. by destruct c', c. Qed.

Lemma may_follow_once c' c :
  may_follow c' c = true -> once_only c = true -> rank c' < rank c.
Proof. destruct c', c; cbn; intros; (discriminate || lia). Qed.

(** Categories in the order of the grammar are admissible. *)
Lemma grammatical_admissible cs : forall seen c0,
  last seen = Some c0 -> Forall (fun s => rank s <= rank c0) seen ->
  grammatical (c0 :: cs) = true -> admissible seen cs = true.
Proof.
  induction cs as [|c cs IH]; intros seen c0 Hlast Hseen; [done|].
  cbn [grammatical]. fold (grammatical (c :: cs)). rewrite andb_true_iff.
  intros [Hfol Hgr]. cbn [admissible]. rewrite Hlast. cbn [barred].
  rewrite (may_follow_refused _ _ Hfol). cbn.
  rewrite andb_true_r, andb_true_iff, negb_true_iff. split.
  - destruct (once_only c) eqn:Eo; [|done]. cbn. apply bool_decide_eq_false.
    intros Hin. rewrite Forall_forall in Hseen. apply Hseen in Hin.
    pose proof (may_follow_once _ _ Hfol Eo). lia.
  - apply (IH _ c); [apply last_snoc| |done].
    apply Forall_app. split; [|by apply Forall_singleton].
    eapply Forall_impl; [done|]. cbn. intros s Hs.
    pose proof (may_follow_rank _ _ Hfol). lia.
Qed.

(** X5: no selector of the documented grammar is refused.  A chain of
    add-methods on the facade whose categories do not decrease in rank, with
    element, id and pseudo-element at most once, returns, and its text is the
    fragments in call order. *)
Theorem grammatical_returns l :
  grammatical (l.*1) = true ->
  exists b, chain cssSelectorBuilder (adds l) = Return b /\ stringify b = fragments l.
Proof.
  intros Hgr.
  assert (Hadm : admissible [] (added (adds l)) = true).
  { rewrite added_adds. destruct (l.*1) as [|c cs]; [done|].
    cbn [admissible]. cbn. rewrite andb_false_r. cbn.
    apply (grammatical_admissible cs [c] c); [done| |done].
    by apply Forall_singleton. }
  apply admissible_returns in Hadm as [b Hb]. exists b. split; [done|].
  unfold stringify. by rewrite (adds_total _ _ _ Hb).
Qed.

Lemma grammatical_returns_witness :
  exists b,
    chain cssSelectorBuilder
      (adds [(Element, "a"); (Class, "x"); (Class, "y"); (PseudoElement, "after")])
      = Return b /\
    stringify b = fragments [(Element, "a"); (Class, "x"); (Class, "y"); (PseudoElement, "after")].
Proof.
  apply (grammatical_returns
           [(Element, "a"); (Class, "x"); (Class, "y"); (PseudoElement, "after")]).
  reflexivity.
Defined.

(** A chain that throws has a first call that throws, on the builder the
    calls before it return. *)
Lemma chain_Throw calls : forall this e,
  chain this calls = Throw e ->
  exists pre o post b,
    calls = (pre ++ o :: post)%list /\ chain this pre = Return b /\ invoke b o = Throw e.
Proof.
  induction calls as [|o calls IH]; intros this e; [done|].
  cbn [chain]. destruct (invoke this o) as [b1|e1] eqn:Ho; cbn.
  - intros (pre & o' & post & b & -> & Hpre & Ho')%IH.
    exists (o :: pre), o', post, b. repeat split; [|done]. cbn. by rewrite Ho.
  - intros [= ->]. by exists [], o, calls, this.
Qed.

(** X6: a chain of calls on the facade throws only at an add-method, and
    only one of the two errors: the duplicate error, when the category of
    that call is element, id or pseudo-element and was added by an earlier
    call, and otherwise the order error, the order check of the call barring
    the category added last.  Every call before it returns. *)
Theorem chain_throws calls e :
  chain cssSelectorBuilder calls = Throw e ->
  exists pre c value post b,
    calls = (pre ++ Add c value :: post)%list /\
    chain cssSelectorBuilder pre = Return b /\
    ((e = DuplicateFragment /\ once_only c = true /\ c ∈ added pre) \/
     (e = OutOfOrder /\ ~ (once_only c = true /\ c ∈ added pre) /\
      barred c (last (added pre)) = true)).
Proof.
  intros (pre & o & post & b & -> & Hpre & Ho)%chain_Throw.
  destruct o as [c value|A t B]; [|done]. cbn [invoke] in Ho.
  exists pre, c, value, post, b. do 2 (split; [done|]).
  destruct (add_cases c b value _ (facade_prev _ _ Hpre)) as (Hdup & Hord & Hret).
  pose proof (facade_occurred _ _ c Hpre) as Hocc.
  destruct (facade_chain _ _ Hpre) as (_ & _ & _ & _ & Ha & Hw).
  destruct (occurred c b) eqn:Eo.
  - left. rewrite Hdup, Ha in Ho by done. split; [congruence|]. by apply Hocc.
  - assert (Hn : ~ (once_only c = true /\ c ∈ added pre)).
    { intros Hc. apply Hocc in Hc. done. }
    destruct (barred c (last (added pre))) eqn:Eb.
    + right. rewrite Hord, Hw in Ho by done. split; [congruence|done].
    + destruct (Hret eq_refl eq_refl) as [b' Hb']. congruence.
Qed.

Lemma chain_throws_witness :
  exists pre c value post b,
    [Add Id "x"; Add Class "c"; Add Id "y"; Add Attribute "z"]
      = (pre ++ Add c value :: post)%list /\
    chain cssSelectorBuilder pre = Return b /\
    ((DuplicateFragment = DuplicateFragment /\ once_only c = true /\ c ∈ added pre) \/
     (DuplicateFragment = OutOfOrder /\ ~ (once_only c = true /\ c ∈ added pre) /\
      barred c (last (added pre)) = true)).
Proof.
  apply (chain_throws [Add Id "x"; Add Class "c"; Add Id "y"; Add Attribute "z"]
           DuplicateFragment).
  reflexivity.
Defined.

(** X7: nesting [combine] to the left or to the right on the same
    receiver returns the same builder, and its text is the three selectors
    joined by the two combinators in order, [A t1 B t2 C]. *)
Theorem combine_nesting this A t1 B t2 C :
  exists c,
    (BC ← combine this B t2 C; combine this A t1 BC) = Return c /\
    (AB ← combine this A t1 B; combine this AB t2 C) = Return c /\
    stringify c
    = stringify A +:+ " " +:+ t1 +:+ " " +:+ stringify B +:+ " " +:+ t2 +:+ " "
      +:+ stringify C.
Proof.
  eexists. split; [reflexivity|]. split; [|reflexivity].
  cbn. unfold combine. do 2 f_equal. cbn [total].
  by rewrite !append_assoc.
Qed.

Lemma admissible_app cs1 : forall seen cs2,
  admissible seen (cs1 ++ cs2) = admissible seen cs1 && admissible (seen ++ cs1) cs2.
Proof.
  induction cs1 as [|c cs1 IH]; intros seen cs2; cbn [admissible app].
  - by rewrite app_nil_r.
  - rewrite IH, <- (assoc_L (++) seen [c] cs1). cbn [app]. by rewrite !andb_assoc.
Qed.

Lemma admissible_once c cs : forall seen,
  once_only c = true -> c ∈ seen -> admissible seen cs = true -> c ∉ cs.
Proof.
  induction cs as [|c' cs IH]; intros seen Hc Hin; [intros _; apply not_elem_of_nil|].
  cbn [admissible]. rewrite !andb_true_iff, !negb_true_iff.
  intros [[Hrep _] Hadm]. apply not_elem_of_cons. split.
  - intros ->. rewrite Hc in Hrep. cbn in Hrep. by apply bool_decide_eq_false in Hrep.
  - apply (IH (seen ++ [c'])%list); [done| |done]. apply elem_of_app. by left.
Qed.

(** X10: in a chain on the facade that returns, element, id and
    pseudo-element are each added at most once: wherever such a category is
    added, it is added neither before nor after. *)
Theorem once_only_once calls b c pre post :
  chain cssSelectorBuilder calls = Return b ->
  once_only c = true ->
  added calls = (pre ++ c :: post)%list ->
  (c ∉ pre) /\ (c ∉ post).
Proof.
  intros H Hc Hsplit.
  assert (Hadm : admissible [] (added calls) = true).
  { apply (chain_admissible calls [] cssSelectorBuilder); [done|eauto]. }
  rewrite Hsplit, admissible_app in Hadm. cbn [app admissible] in Hadm.
  rewrite Hc in Hadm. cbn in Hadm.
  rewrite !andb_true_iff, !negb_true_iff, bool_decide_eq_false in Hadm.
  destruct Hadm as (_ & (Hpre & _) & Hpost). split; [done|].
  apply (admissible_once c post (pre ++ [c])%list); [done| |done].
  apply elem_of_app. right. apply list_elem_of_here.
Qed.

Lemma once_only_once_witness :
  (Id ∉ [Element]) /\ (Id ∉ [Class; PseudoElement]).
Proof.
  refine (once_only_once
            [Add Element "a"; Add Id "x"; Add Class "c"; Add PseudoElement "after"]
            _ Id [Element] [Class; PseudoElement] _ _ _); reflexivity.
Defined.

(** X11: the fields of every builder reached by a chain of calls from the
    facade record its history: [prev] is the tag of the category added last
    (empty when none was), each occurrence flag is set exactly when its
    category was added, and the two error fields are those of the facade. *)
Theorem builder_records_history calls b :
  chain cssSelectorBuilder calls = Return b ->
  prev b = from_option tag "" (last (added calls)) /\
  (forall c, occurred c b = true <-> once_only c = true /\ c ∈ added calls) /\
  erAlrOc b = DuplicateFragment /\ erWOrd b = OutOfOrder.
Proof.
  intros H. split; [by apply facade_prev|]. split.
  - intros c. by apply facade_occurred.
  - by destruct (facade_chain _ _ H) as (_ & _ & _ & _ & Ha & Hw).
Qed.

Lemma builder_records_history_witness :
  prev {| total := "a + b.c"; prev := "class"; elOc := true; idOc := false;
          pElOc := false; erAlrOc := DuplicateFragment; erWOrd := OutOfOrder |}
  = from_option tag "" (last [Element; Class]).
Proof.
  refine (proj1 (builder_records_history
            [Add Element "x";
             Combine {| total := "a"; prev := "elem"; elOc := true; idOc := false;
                        pElOc := false; erAlrOc := DuplicateFragment;
                        erWOrd := OutOfOrder |} "+"
                     {| total := "b"; prev := "elem"; elOc := true; idOc := false;
                        pElOc := false; erAlrOc := DuplicateFragment;
                        erWOrd := OutOfOrder |};
             Add Class "c"] _ _)).
  reflexivity.
Defined.

End BuilderChains.

(** * Rectangles side by side *)

Module RectangleStore.
Import Rectangle RectangleProperties.

Section Numbers.
Context {number : Type}.
Variable mul : number -> number -> number.

(** X8: constructing a rectangle, and assigning to its fields afterwards,
    leaves the area of a rectangle constructed before as it was; assigning
    to the earlier one leaves the area of the new one at [w * h]. *)
Theorem Rectangle_independent (w h : number) (σ : gmap loc rectangle) r1 o1 :
  σ !! r1 = Some o1 -> getArea o1 = AreaOf r1 ->
  let r2 := (Rectangle w h σ).1 in
  let σ' := (Rectangle w h σ).2 in
  r2 <> r1 /\
  call_getArea mul r1 σ' = call_getArea mul r1 σ /\
  (forall w', call_getArea mul r1 (set_width r2 w' σ') = call_getArea mul r1 σ) /\
  (forall h', call_getArea mul r1 (set_height r2 h' σ') = call_getArea mul r1 σ) /\
  (forall w', call_getArea mul r2 (set_width r1 w' σ') = Some (mul w h)) /\
  (forall h', call_getArea mul r2 (set_height r1 h' σ') = Some (mul w h)).
Proof.
  intros H1 Hf r2 σ'.
  pose proof (Rectangle_lookup w h σ) as H2. fold r2 σ' in H2.
  assert (Hne : r2 <> r1).
  { intros Heq. pose proof (Rectangle_fresh w h σ) as Hfresh. fold r2 in Hfresh.
    rewrite Heq in Hfresh. congruence. }
  assert (H1' : σ' !! r1 = Some o1).
  { unfold σ'. cbn. fold r2. by rewrite lookup_insert_ne. }
  clearbody r2 σ'. unfold call_getArea, set_width, set_height.
  repeat split; intros;
    rewrite ?lookup_alter_ne, ?H1, ?H1', ?H2 by done; cbn;
    rewrite ?Hf; cbn;
    rewrite ?lookup_alter_ne, ?H1, ?H1', ?H2 by done; done.
Qed.

(** X12: the closure [getArea] is bound to the rectangle the constructor
    made it for: assigned to another rectangle and called there, it returns
    the area of the first one, whatever the fields of the other are. *)
Theorem getArea_bound (σ : gmap loc rectangle) r1 o1 r2 o2 :
  σ !! r1 = Some o1 -> getArea o1 = AreaOf r1 ->
  σ !! r2 = Some o2 -> r2 <> r1 ->
  call_getArea mul r2 (set_getArea r2 (getArea o1) σ) = Some (mul (width o1) (height o1)) /\
  (forall w',
     call_getArea mul r2 (set_width r2 w' (set_getArea r2 (getArea o1) σ))
     = Some (mul (width o1) (height o1))).
Proof.
  intros H1 Hf H2 Hne. unfold call_getArea, set_getArea, set_width.
  split; intros; rewrite ?lookup_alter_eq, H2; cbn; rewrite Hf; cbn;
    rewrite ?lookup_alter_ne, H1 by done; done.
Qed.

End Numbers.

Lemma getArea_bound_witness :
  call_getArea Z.mul 2%positive
    (set_getArea 2%positive (AreaOf 1%positive)
       (Rectangle 3%Z 4%Z (Rectangle 10%Z 20%Z ∅).2).2)
  = Some 200%Z.
Proof.
  refine (proj1 (getArea_bound Z.mul (Rectangle 3%Z 4%Z (Rectangle 10%Z 20%Z ∅).2).2
            1%positive {| width := 10%Z; height := 20%Z; getArea := AreaOf 1%positive |}
            2%positive {| width := 3%Z; height := 4%Z; getArea := AreaOf 2%positive |}
            _ _ _ _)).
  - vm_compute. reflexivity.
  - reflexivity.
  - vm_compute. reflexivity.
  - discriminate.
Defined.

Lemma Rectangle_independent_witness :
  call_getArea Z.mul 1%positive
    (set_width (Rectangle 3%Z 4%Z (Rectangle 10%Z 20%Z ∅).2).1 7%Z
       (Rectangle 3%Z 4%Z (Rectangle 10%Z 20%Z ∅).2).2)
  = call_getArea Z.mul 1%positive (Rectangle 10%Z 20%Z ∅).2.
Proof.
  refine (proj1 (proj2 (proj2 (Rectangle_independent Z.mul 3%Z 4%Z
            (Rectangle 10%Z 20%Z ∅).2 1%positive
            {| width := 10%Z; height := 20%Z; getArea := AreaOf 1%positive |} _ _))) 7%Z).
  - vm_compute. reflexivity.
  - reflexivity.
Defined.

End RectangleStore.

(** * fromJSON on arrays *)

Module JSONArrays.
Import JSON JSONProperties.

Section Host.
Context {number exn function : Type}.
Variable JSON_parse : string -> completion exn (value number).

(** X9: when the text is a JSON array, [fromJSON] returns an object with
    prototype [proto] that has the items as own properties under their
    decimal indices, and no other own property. *)
Theorem fromJSON_array (proto : gmap string function) (json : string) items :
  JSON_parse json = Return (VArr items) ->
  exists o,
    fromJSON JSON_parse proto json = Return o /\
    prototype o = Proto proto /\
    (forall i : nat, own o !! pretty i = items !! i) /\
    (forall k v, own o !! k = Some v -> exists i : nat, k = pretty i /\ items !! i = Some v).
Proof.
  intros Hparse. rewrite fromJSON_unfold, Hparse. eexists. split; [done|].
  rewrite Object_assign_plain by apply indexed_no_proto.
  cbn. repeat split.
  - apply indexed_lookup.
  - intros k v. apply indexed_lookup_Some.
Qed.

End Host.

Lemma fromJSON_array_witness :
  exists o,
    fromJSON sample_parse Circle "[10, 20]" = Return o /\
    own o !! "1" = Some (VNum 20%Z).
Proof.
  destruct (fromJSON_array sample_parse Circle "[10, 20]" [VNum 10%Z; VNum 20%Z])
    as (o & Ho & _ & Hi & _).
  - vm_compute. reflexivity.
  - exists o. split; [exact Ho|]. apply (Hi 1).
Defined.

End JSONArrays.
